(** * The demo route of the TanStack Start template

    A shallow embedding of the two route modules of the template:

    - [src/routes/api/demo.ts]: the [GET] handler of [/api/demo], which reads
      the [user-agent] request header and answers with a JSON message;
    - the module of the root route [/], listed after the build configuration
      in [vite.config.ts]: the server function [getMessageFn], the route's
      [loader] and the [App] component.

    The handlers are a few lines long; what they do is decided by the platform
    operations they call ([Headers.get], template literals, [Response.json],
    [fetch], [Response.prototype.json]).  Those operations are modelled first,
    after ECMA-262 and the WHATWG Fetch standard, and the route modules are
    then written on top of them, line for line. *)

From Stdlib Require Import NArith List String Ascii Bool Arith Lia.
Import ListNotations.

Local Open Scope N_scope.
Local Open Scope list_scope.

(** ** JavaScript strings *)

(** A JavaScript string is a sequence of UTF-16 code units. *)
Definition code_unit := N.
Definition jsstring := list code_unit.

(** The code units of an ASCII literal of the source text. *)
Definition js (s : string) : jsstring :=
  List.map N_of_ascii (list_ascii_of_string s).

Definition DQUOTE : code_unit := 0x22.

(** A literal in which an apostrophe stands for the double quote. *)
Definition jsq (s : string) : jsstring :=
  List.map (fun c => if c =? 0x27 then DQUOTE else c) (js s).

Definition BACKSLASH : code_unit := 0x5C.
Definition SLASH : code_unit := 0x2F.
Definition COMMA : code_unit := 0x2C.
Definition COLON : code_unit := 0x3A.
Definition LBRACKET : code_unit := 0x5B.
Definition RBRACKET : code_unit := 0x5D.
Definition LBRACE : code_unit := 0x7B.
Definition RBRACE : code_unit := 0x7D.
Definition MINUS : code_unit := 0x2D.

Fixpoint jsstring_eqb (a b : jsstring) : bool :=
  match a, b with
  | [], [] => true
  | x :: a', y :: b' => (x =? y) && jsstring_eqb a' b'
  | _, _ => false
  end.

(** Thrown values: an [Error] object with its [name] and [message]. *)
Inductive exn : Type :=
| JsError (name : string) (message : string).

Definition TypeError (m : string) : exn := JsError "TypeError" m.
Definition SyntaxError (m : string) : exn := JsError "SyntaxError" m.

(** A computation that either throws or returns. *)
Definition result (A : Type) : Type := (exn + A)%type.

(** ** JSON values *)

(** The values [JSON.parse] can produce.  A number keeps the text of its
    literal: IEEE-754 doubles are not modelled, and nothing in the routes
    computes with a number.  An object keeps its own properties as an
    association list with distinct keys. *)
#[warnings="-register-all"]
Inductive json : Type :=
| JNull
| JBool (b : bool)
| JNum (lexeme : jsstring)
| JStr (s : jsstring)
| JArr (items : list json)
| JObj (members : list (jsstring * json)).

(** [O[k]] for an object created by [JSON.parse] or by an object literal:
    an own property, or [undefined] ([None]). *)
Fixpoint obj_get (k : jsstring) (l : list (jsstring * json)) : option json :=
  match l with
  | [] => None
  | (k', v) :: l' => if jsstring_eqb k k' then Some v else obj_get k l'
  end.

(** [CreateDataProperty(O, k, v)]: a key that exists keeps its place and gets
    the new value, a new key goes last. *)
Fixpoint obj_put (k : jsstring) (v : json) (l : list (jsstring * json))
  : list (jsstring * json) :=
  match l with
  | [] => [(k, v)]
  | (k', v') :: l' =>
      if jsstring_eqb k k' then (k', v) :: l' else (k', v') :: obj_put k v l'
  end.

(** ** JSON.stringify *)

Definition is_lead (c : code_unit) : bool := (0xD800 <=? c) && (c <=? 0xDBFF).
Definition is_trail (c : code_unit) : bool := (0xDC00 <=? c) && (c <=? 0xDFFF).

Definition hex_digit (d : N) : code_unit :=
  if d <? 10 then 0x30 + d else 0x61 + (d - 10).

(** [UnicodeEscape(C)]: a backslash, [u] and four lowercase hex digits. *)
Definition unicode_escape (c : code_unit) : jsstring :=
  [BACKSLASH; 0x75;
   hex_digit ((c / 4096) mod 16); hex_digit ((c / 256) mod 16);
   hex_digit ((c / 16) mod 16); hex_digit (c mod 16)].

(** One code unit that is not the lead of a surrogate pair, as
    [QuoteJSONString] writes it. *)
Definition quote_unit (c : code_unit) : jsstring :=
  if c =? 0x08 then [BACKSLASH; 0x62]
  else if c =? 0x09 then [BACKSLASH; 0x74]
  else if c =? 0x0A then [BACKSLASH; 0x6E]
  else if c =? 0x0C then [BACKSLASH; 0x66]
  else if c =? 0x0D then [BACKSLASH; 0x72]
  else if c =? DQUOTE then [BACKSLASH; DQUOTE]
  else if c =? BACKSLASH then [BACKSLASH; BACKSLASH]
  else if (c <? 0x20) || is_lead c || is_trail c then unicode_escape c
  else [c].

(** The code points of the string are visited in order: a lead surrogate
    followed by a trail surrogate is one code point and is copied, a lone
    surrogate is escaped. *)
Fixpoint quote_units (s : jsstring) : jsstring :=
  match s with
  | [] => []
  | c :: t =>
      if is_lead c then
        match t with
        | d :: t' =>
            if is_trail d then c :: d :: quote_units t'
            else unicode_escape c ++ quote_units t
        | [] => unicode_escape c
        end
      else quote_unit c ++ quote_units t
  end.

Definition QuoteJSONString (s : jsstring) : jsstring :=
  DQUOTE :: quote_units s ++ [DQUOTE].

Fixpoint join_comma (parts : list jsstring) : jsstring :=
  match parts with
  | [] => []
  | [p] => p
  | p :: rest => p ++ COMMA :: join_comma rest
  end.

(** [JSON.stringify(v)] without indentation.  Members are written in the
    order of the association list. *)
Fixpoint JSON_stringify (v : json) : jsstring :=
  match v with
  | JNull => js "null"
  | JBool true => js "true"
  | JBool false => js "false"
  | JNum lexeme => lexeme
  | JStr s => QuoteJSONString s
  | JArr items =>
      LBRACKET :: join_comma (List.map JSON_stringify items) ++ [RBRACKET]
  | JObj members =>
      LBRACE ::
        join_comma
          (List.map (fun kv => QuoteJSONString (fst kv) ++ COLON :: JSON_stringify (snd kv))
             members)
        ++ [RBRACE]
  end.

(** ** JSON.parse *)

Definition is_ws (c : code_unit) : bool :=
  (c =? 0x20) || (c =? 0x09) || (c =? 0x0A) || (c =? 0x0D).

Fixpoint skip_ws (s : jsstring) : jsstring :=
  match s with
  | c :: t => if is_ws c then skip_ws t else s
  | [] => []
  end.

Definition is_digit (c : code_unit) : bool := (0x30 <=? c) && (c <=? 0x39).

Definition hex_val (c : code_unit) : option N :=
  if is_digit c then Some (c - 0x30)
  else if (0x61 <=? c) && (c <=? 0x66) then Some (c - 0x61 + 10)
  else if (0x41 <=? c) && (c <=? 0x46) then Some (c - 0x41 + 10)
  else None.

Definition hex4 (a b c d : code_unit) : option code_unit :=
  match hex_val a, hex_val b, hex_val c, hex_val d with
  | Some x3, Some x2, Some x1, Some x0 => Some (((x3 * 16 + x2) * 16 + x1) * 16 + x0)
  | _, _, _, _ => None
  end.

(** The character an escape letter stands for ([JSONEscapeCharacter]). *)
Definition escape_char (e : code_unit) : option code_unit :=
  if e =? DQUOTE then Some DQUOTE
  else if e =? BACKSLASH then Some BACKSLASH
  else if e =? SLASH then Some SLASH
  else if e =? 0x62 then Some 0x08
  else if e =? 0x66 then Some 0x0C
  else if e =? 0x6E then Some 0x0A
  else if e =? 0x72 then Some 0x0D
  else if e =? 0x74 then Some 0x09
  else None.

(** The characters of a string literal after its opening quote, up to and
    including the closing quote; [acc] holds what was read, last first. *)
Fixpoint parse_chars (s : jsstring) (acc : jsstring) : option (jsstring * jsstring) :=
  match s with
  | [] => None
  | c :: t =>
      if c =? DQUOTE then Some (List.rev acc, t)
      else if c =? BACKSLASH then
        match t with
        | [] => None
        | e :: t1 =>
            if e =? 0x75 then
              match t1 with
              | h3 :: h2 :: h1 :: h0 :: t2 =>
                  match hex4 h3 h2 h1 h0 with
                  | Some u => parse_chars t2 (u :: acc)
                  | None => None
                  end
              | _ => None
              end
            else
              match escape_char e with
              | Some u => parse_chars t1 (u :: acc)
              | None => None
              end
        end
      else if c <? 0x20 then None
      else parse_chars t (c :: acc)
  end.

(** The longest prefix of decimal digits, and what follows it. *)
Fixpoint span_digits (s : jsstring) : jsstring * jsstring :=
  match s with
  | c :: t =>
      if is_digit c then let (ds, r) := span_digits t in (c :: ds, r) else ([], s)
  | [] => ([], [])
  end.

(** The integer part: an optional minus sign, then a lone zero or a nonzero
    digit and the digits after it. *)
Definition parse_int (s : jsstring) : option (jsstring * jsstring) :=
  let (sign, s1) :=
    match s with
    | c :: t => if c =? MINUS then ([c], t) else ([], s)
    | [] => ([], s)
    end in
  match s1 with
  | c :: t =>
      if c =? 0x30 then Some (sign ++ [c], t)
      else if is_digit c then
        let (ds, r) := span_digits t in Some (sign ++ c :: ds, r)
      else None
  | [] => None
  end.

(** The optional fraction: a dot and one digit or more. *)
Definition parse_frac (s : jsstring) : option (jsstring * jsstring) :=
  match s with
  | c :: t =>
      if c =? 0x2E then
        match span_digits t with
        | ([], _) => None
        | (ds, r) => Some (c :: ds, r)
        end
      else Some ([], s)
  | [] => Some ([], s)
  end.

(** The optional exponent: [e] or [E], an optional sign, one digit or more. *)
Definition parse_exp (s : jsstring) : option (jsstring * jsstring) :=
  match s with
  | c :: t =>
      if (c =? 0x65) || (c =? 0x45) then
        let (sign, t1) :=
          match t with
          | g :: t' => if (g =? 0x2B) || (g =? MINUS) then ([g], t') else ([], t)
          | [] => ([], t)
          end in
        match span_digits t1 with
        | ([], _) => None
        | (ds, r) => Some (c :: sign ++ ds, r)
        end
      else Some ([], s)
  | [] => Some ([], s)
  end.

Definition parse_number (s : jsstring) : option (jsstring * jsstring) :=
  match parse_int s with
  | Some (i, r1) =>
      match parse_frac r1 with
      | Some (f, r2) =>
          match parse_exp r2 with
          | Some (e, r3) => Some (i ++ f ++ e, r3)
          | None => None
          end
      | None => None
      end
  | None => None
  end.

(** [s] starts with the keyword [kw]: what follows it. *)
Fixpoint strip_prefix (kw s : jsstring) : option jsstring :=
  match kw, s with
  | [], _ => Some s
  | k :: kw', c :: s' => if k =? c then strip_prefix kw' s' else None
  | _ :: _, [] => None
  end.

(** The outcome of a parser with a recursion budget. *)
Inductive pres (A : Type) : Type :=
| POk (a : A) (rest : jsstring)
| PErr
| PFuel.
Arguments POk {A} a rest.
Arguments PErr {A}.
Arguments PFuel {A}.

(** Recursive descent over the JSON grammar.  [parse_elements] reads the
    elements of an array after its opening bracket, [parse_members] the
    members of an object after its opening brace. *)
Fixpoint parse_value (fuel : nat) (s : jsstring) {struct fuel} : pres json :=
  match fuel with
  | O => PFuel
  | S f =>
      match skip_ws s with
      | [] => PErr
      | c :: t =>
          if c =? DQUOTE then
            match parse_chars t [] with
            | Some (str, r) => POk (JStr str) r
            | None => PErr
            end
          else if c =? LBRACKET then
            match skip_ws t with
            | d :: r => if d =? RBRACKET then POk (JArr []) r else parse_elements f t []
            | [] => PErr
            end
          else if c =? LBRACE then
            match skip_ws t with
            | d :: r => if d =? RBRACE then POk (JObj []) r else parse_members f t []
            | [] => PErr
            end
          else if (c =? MINUS) || is_digit c then
            match parse_number (c :: t) with
            | Some (lexeme, r) => POk (JNum lexeme) r
            | None => PErr
            end
          else
            match strip_prefix (js "null") (c :: t) with
            | Some r => POk JNull r
            | None =>
                match strip_prefix (js "true") (c :: t) with
                | Some r => POk (JBool true) r
                | None =>
                    match strip_prefix (js "false") (c :: t) with
                    | Some r => POk (JBool false) r
                    | None => PErr
                    end
                end
            end
      end
  end
with parse_elements (fuel : nat) (s : jsstring) (acc : list json) {struct fuel}
  : pres json :=
  match fuel with
  | O => PFuel
  | S f =>
      match parse_value f s with
      | POk v r =>
          match skip_ws r with
          | d :: r' =>
              if d =? COMMA then parse_elements f r' (v :: acc)
              else if d =? RBRACKET then POk (JArr (List.rev (v :: acc))) r'
              else PErr
          | [] => PErr
          end
      | PErr => PErr
      | PFuel => PFuel
      end
  end
with parse_members (fuel : nat) (s : jsstring) (acc : list (jsstring * json))
  {struct fuel} : pres json :=
  match fuel with
  | O => PFuel
  | S f =>
      match skip_ws s with
      | q :: t =>
          if q =? DQUOTE then
            match parse_chars t [] with
            | Some (k, r) =>
                match skip_ws r with
                | c :: r1 =>
                    if c =? COLON then
                      match parse_value f r1 with
                      | POk v r2 =>
                          match skip_ws r2 with
                          | d :: r3 =>
                              if d =? COMMA then parse_members f r3 (obj_put k v acc)
                              else if d =? RBRACE then POk (JObj (obj_put k v acc)) r3
                              else PErr
                          | [] => PErr
                          end
                      | PErr => PErr
                      | PFuel => PFuel
                      end
                    else PErr
                | [] => PErr
                end
            | None => PErr
            end
          else PErr
      | [] => PErr
      end
  end.

(** A budget that the descent cannot exhaust (see [parse_value_fuel]). *)
Definition parse_fuel (text : jsstring) : nat := 2 * List.length text + 2.

(** [JSON.parse(text)]: one value, with nothing but white space after it. *)
Definition JSON_parse (text : jsstring) : result json :=
  match parse_value (parse_fuel text) text with
  | POk v r =>
      match skip_ws r with
      | [] => inr v
      | _ :: _ => inl (SyntaxError "Unexpected non-whitespace character after JSON")
      end
  | PErr => inl (SyntaxError "Unexpected token in JSON")
  | PFuel => inl (SyntaxError "Unexpected token in JSON")
  end.

(** ** The Fetch API: headers, requests, responses *)

(** A header list: name and value pairs in the order they were appended. *)
Definition Headers := list (jsstring * jsstring).

Definition byte_lowercase (c : code_unit) : code_unit :=
  if (0x41 <=? c) && (c <=? 0x5A) then c + 0x20 else c.

(** The [tchar] of RFC 9110: the characters of a header name. *)
Definition is_tchar (c : code_unit) : bool :=
  is_digit c
  || ((0x41 <=? c) && (c <=? 0x5A))
  || ((0x61 <=? c) && (c <=? 0x7A))
  || (c =? 0x21) || ((0x23 <=? c) && (c <=? 0x27))
  || (c =? 0x2A) || (c =? 0x2B) || (c =? 0x2D) || (c =? 0x2E)
  || (c =? 0x5E) || (c =? 0x5F) || (c =? 0x60) || (c =? 0x7C) || (c =? 0x7E).

Definition is_header_name (name : jsstring) : bool :=
  match name with
  | [] => false
  | _ :: _ => List.forallb is_tchar name
  end.

(** Names match byte-case-insensitively. *)
Definition header_name_eqb (a b : jsstring) : bool :=
  jsstring_eqb (List.map byte_lowercase a) (List.map byte_lowercase b).

Fixpoint header_values (name : jsstring) (hs : Headers) : list jsstring :=
  match hs with
  | [] => []
  | (n, v) :: hs' =>
      if header_name_eqb n name then v :: header_values name hs'
      else header_values name hs'
  end.

Fixpoint join_values (vs : list jsstring) : jsstring :=
  match vs with
  | [] => []
  | [v] => v
  | v :: rest => v ++ COMMA :: 0x20 :: join_values rest
  end.

(** [headers.get(name)]: a [TypeError] for a name that is not a header name,
    [null] ([None]) when the list has no header of that name, and otherwise
    the values of all headers of that name, joined by a comma and a space. *)
Definition Headers_get (hs : Headers) (name : jsstring) : result (option jsstring) :=
  if is_header_name name then
    match header_values name hs with
    | [] => inr None
    | vs => inr (Some (join_values vs))
    end
  else inl (TypeError "Invalid header name").

Record Request : Type := mkRequest {
  req_method : jsstring;
  req_url : jsstring;
  req_headers : Headers;
  req_body : option jsstring
}.

(** A response.  [resp_body] is what reading the body stream to its end
    gives: the decoded text, or the error the read fails with. *)
Record Response : Type := mkResponse {
  status : N;
  statusText : jsstring;
  resp_headers : Headers;
  resp_body : result jsstring
}.

(** [Response.json(data)] with no [init]: status 200, an empty status text,
    the content type [application/json], and the serialized value as body. *)
Definition Response_json (data : json) : Response :=
  {| status := 200;
     statusText := [];
     resp_headers := [(js "content-type", js "application/json")];
     resp_body := inr (JSON_stringify data) |}.

(** ** Template literals *)

(** [ToString] of a value that is a string or [null], as a substitution of a
    template literal applies it. *)
Definition ToString (v : option jsstring) : jsstring :=
  match v with
  | Some s => s
  | None => js "null"
  end.

(** ** Throwing computations *)

Definition rbind {A B : Type} (m : result A) (k : A -> result B) : result B :=
  match m with
  | inl e => inl e
  | inr a => k a
  end.

Declare Scope result_scope.
Delimit Scope result_scope with result.
Notation "'let!' x ':=' m 'in' k" := (rbind m (fun x => k))
  (at level 10, x name, m at level 100, k at level 200) : result_scope.

(** ** Asynchronous computations *)

(** What a run leaves behind: a fetch that was issued, and the settling of
    the promise of a fetch once it is awaited. *)
Inductive event : Type :=
| FetchStart (id : nat) (req : Request)
| FetchSettle (id : nat).

(** The surroundings of a run: the environment variables of the process and
    the network, which gives the outcome of the [n]-th fetch of the run: a
    response, whatever its status, or the error the fetch rejects with. *)
Record World : Type := mkWorld {
  process_env : jsstring -> option jsstring;
  network : nat -> Request -> result Response
}.

Record AState : Type := mkAState {
  log : list event;
  next_id : nat
}.

Definition initial : AState := {| log := []; next_id := 0 |}.

Definition Async (A : Type) : Type := World -> AState -> AState * result A.

Definition ret {A : Type} (a : A) : Async A := fun _ st => (st, inr a).

(** A step that starts no fetch: it returns or throws on the spot. *)
Definition lift {A : Type} (r : result A) : Async A := fun _ st => (st, r).

Definition bind {A B : Type} (m : Async A) (k : A -> Async B) : Async B :=
  fun w st =>
    match m w st with
    | (st', inl e) => (st', inl e)
    | (st', inr a) => k a w st'
    end.

Declare Scope async_scope.
Delimit Scope async_scope with async.
Notation "x <- m ;; k" := (bind m (fun x => k))
  (at level 61, m at next level, right associativity) : async_scope.

(** A promise: the fetch it belongs to, if any, and how it settles. *)
Record Promise (A : Type) : Type := mkPromise {
  p_fetch : option nat;
  p_outcome : result A
}.
Arguments mkPromise {A} p_fetch p_outcome.
Arguments p_fetch {A} p.
Arguments p_outcome {A} p.

(** The request of [fetch(url)] with no [init]: a GET with no header of the
    caller's and no body. *)
Definition GET_request (url : jsstring) : Request :=
  {| req_method := js "GET"; req_url := url; req_headers := []; req_body := None |}.

(** [fetch(url)]: the request is issued, and the promise of its response is
    returned at once. *)
Definition fetch (url : jsstring) : Async (Promise Response) :=
  fun w st =>
    let req := GET_request url in
    let id := next_id st in
    ({| log := log st ++ [FetchStart id req]; next_id := S id |},
     inr (mkPromise (Some id) (network w id req))).

(** [await p]: the run resumes when [p] has settled, with its value or by
    throwing its rejection. *)
Definition await {A : Type} (p : Promise A) : Async A :=
  fun _ st =>
    (match p_fetch p with
     | Some id => {| log := log st ++ [FetchSettle id]; next_id := next_id st |}
     | None => st
     end,
     p_outcome p).

(** [response.json()]: the body is read to its end and parsed; the promise
    rejects with the error of the read or with the parser's [SyntaxError]. *)
Definition Response_json_method (response : Response) : Async (Promise json) :=
  ret (mkPromise None (rbind (resp_body response) JSON_parse)).

Definition run {A : Type} (m : Async A) (w : World) : AState * result A :=
  m w initial.

(** The fetches a log starts, in order. *)
Fixpoint started (l : list event) : list Request :=
  match l with
  | [] => []
  | FetchStart _ req :: l' => req :: started l'
  | FetchSettle _ :: l' => started l'
  end.

(** The fetches in flight after the events of [l], given those in flight
    before. *)
Fixpoint pending (l : list event) (before : list nat) : list nat :=
  match l with
  | [] => before
  | FetchStart id _ :: l' => pending l' (id :: before)
  | FetchSettle id :: l' => pending l' (List.filter (fun i => negb (Nat.eqb i id)) before)
  end.

Definition in_flight (l : list event) : nat := List.length (pending l []).

(** ** src/routes/api/demo.ts *)

Module DemoRoute.

Local Open Scope result_scope.

(** The text of the template literal before its substitution. *)
Definition greeting : jsstring :=
  js "Hello " ++ DQUOTE :: js "/api/demo" ++ DQUOTE :: js "! Agent: ".

(** The [GET] handler of the route; of its context it uses [request] only. *)
Definition GET (request : Request) : result Response :=
  let! agent := Headers_get (req_headers request) (js "user-agent") in
  inr (Response_json (JObj [(js "message", JStr (greeting ++ ToString agent))])).

End DemoRoute.

(** ** The root route *)

(** The result of a JSX expression with one child expression. *)
Record Element : Type := mkElement {
  el_type : jsstring;
  el_className : jsstring;
  el_children : option json
}.

(** The binding pattern [{ message }] applied to a value: a [TypeError] on
    [null], the own property [message] of an object, and [undefined]
    ([None]) when there is none, as on every other value [JSON.parse]
    gives. *)
Definition destructure_message (v : json) : result (option json) :=
  match v with
  | JNull => inl (TypeError "Cannot destructure property 'message' of null")
  | JObj members => inr (obj_get (js "message") members)
  | _ => inr None
  end.

Module IndexRoute.

Local Open Scope async_scope.

Definition api_url : jsstring := js "http://localhost:3000/api/demo".

(** The handler of the server function.  It is declared with no parameter:
    whatever it is called with is ignored. *)
Definition getMessageFn (_ : list json) : Async json :=
  response <- (p <- fetch api_url ;; await p) ;;
  data <- (p <- Response_json_method response ;; await p) ;;
  ret data.

Definition loader : Async json :=
  data <- getMessageFn [] ;; ret data.

(** [App], given what [Route.useLoaderData()] returns. *)
Definition App (loaderData : json) : result Element :=
  rbind (destructure_message loaderData) (fun message =>
  inr {| el_type := js "div";
         el_className := js "mx-auto flex p-4";
         el_children := message |}).

(** A load of the route: the loader runs, then the component is rendered
    with the loader's data. *)
Definition page_load : Async Element :=
  data <- loader ;;
  lift (App data).

End IndexRoute.

(** ** What the properties observe *)

(** The JSON value of a response body: what [response.json()] settles with. *)
Definition body_json (response : Response) : result json :=
  rbind (resp_body response) JSON_parse.

(** The [message] member of the JSON body of a response, when the body is
    an object whose [message] is a string. *)
Definition response_message (response : Response) : option jsstring :=
  match body_json response with
  | inr (JObj members) =>
      match obj_get (js "message") members with
      | Some (JStr s) => Some s
      | _ => None
      end
  | _ => None
  end.

(** The message the demo handler answers a request with. *)
Definition GET_message (request : Request) : option jsstring :=
  match DemoRoute.GET request with
  | inr response => response_message response
  | inl _ => None
  end.

(** [needle] occurs in [hay]. *)
Definition contains (hay needle : jsstring) : Prop :=
  exists before after, hay = before ++ needle ++ after.

(** The element [App] returns for a child value. *)
Definition message_div (child : option json) : Element :=
  {| el_type := js "div"; el_className := js "mx-auto flex p-4"; el_children := child |}.

(** The one request the server function issues. *)
Definition api_request : Request := GET_request IndexRoute.api_url.

(** ** Sample requests and worlds *)

Definition curl_request : Request :=
  {| req_method := js "GET";
     req_url := js "http://localhost:3000/api/demo";
     req_headers := [(js "Accept", js "*/*"); (js "User-Agent", js "curl/8.5.0")];
     req_body := None |}.

Definition bare_request : Request :=
  {| req_method := js "GET";
     req_url := js "http://localhost:3000/api/demo";
     req_headers := [(js "accept", js "application/json")];
     req_body := None |}.

Definition post_request : Request :=
  {| req_method := js "POST";
     req_url := js "http://example.test/api/demo?x=1";
     req_headers := [(js "cookie", js "sid=1"); (js "USER-AGENT", js "curl/8.5.0")];
     req_body := Some (js "payload") |}.

Definition no_env : jsstring -> option jsstring := fun _ => None.

(** Nothing listens on the port. *)
Definition world_down : World :=
  {| process_env := no_env;
     network := fun _ _ => inl (TypeError "fetch failed") |}.

(** The port answers with a page that is not JSON. *)
Definition world_html : World :=
  {| process_env := no_env;
     network := fun _ _ =>
       inr {| status := 200; statusText := js "OK";
              resp_headers := [(js "content-type", js "text/html")];
              resp_body := inr (js "<!doctype html><title>x</title>") |} |}.

(** The port answers with an error status and a JSON body that has no
    [message]. *)
Definition world_error_status : World :=
  {| process_env := no_env;
     network := fun _ _ =>
       inr {| status := 500; statusText := js "Internal Server Error";
              resp_headers := [(js "content-type", js "application/json")];
              resp_body := inr (js "{ }") |} |}.

(** The port is served by the demo handler, and the runtime's fetch sends
    its own [user-agent]. *)
Definition world_loopback : World :=
  {| process_env := no_env;
     network := fun _ req =>
       DemoRoute.GET
         {| req_method := req_method req; req_url := req_url req;
            req_headers := req_headers req ++ [(js "user-agent", js "node")];
            req_body := req_body req |} |}.

(** ** vitest.config.ts *)

Module VitestConfig.

(** [a ?? b] where [b] may be [undefined] too. *)
Definition coalesce {A : Type} (a b : option A) : option A :=
  match a with
  | Some _ => a
  | None => b
  end.

(** [a ?? d] where [d] is a value. *)
Definition coalesce_default {A : Type} (a : option A) (d : A) : A :=
  match a with
  | Some x => x
  | None => d
  end.

(** [mode], given [process.env]: a variable of the environment is a string
    or [undefined]. *)
Definition mode (env : jsstring -> option jsstring) : jsstring :=
  coalesce_default (coalesce (env (js "MODE")) (env (js "NODE_ENV"))) (js "test").

End VitestConfig.

(** ** Requests, header lists and runs the further properties speak of *)

(** Two header lists with the same values in the same order, whose names
    differ in the case of their letters at most. *)
Definition same_up_to_case (hs hs' : Headers) : Prop :=
  List.Forall2
    (fun a b =>
       List.map byte_lowercase (fst a) = List.map byte_lowercase (fst b) /\
       snd a = snd b)
    hs hs'.

Definition with_headers (request : Request) (hs : Headers) : Request :=
  {| req_method := req_method request; req_url := req_url request;
     req_headers := hs; req_body := req_body request |}.

(** A proxy has added a second [user-agent] header. *)
Definition proxied_request : Request :=
  with_headers curl_request
    [(js "User-Agent", js "curl/8.5.0"); (js "accept", js "*/*");
     (js "user-agent", js "proxy/1.0")].

(** The client calls itself [null]. *)
Definition null_agent_request : Request :=
  with_headers curl_request [(js "user-agent", js "null")].

(** One load of the root route after another, as on a reload. *)
Definition two_loads : Async json :=
  bind IndexRoute.loader (fun _ => IndexRoute.loader).

(** * Properties of the platform model *)

(** ** Reading back what [QuoteJSONString] writes *)

Ltac bool_cases :=
  repeat match goal with
    | |- context [?a =? ?b] => destruct (N.eqb_spec a b); try lia
    | |- context [?a <=? ?b] => destruct (N.leb_spec a b); try lia
    | |- context [?a <? ?b] => destruct (N.ltb_spec a b); try lia
    end.

Lemma hex_val_digit (d : N) : d < 16 -> hex_val (hex_digit d) = Some d.
Proof.
  intros Hd. unfold hex_val, hex_digit, is_digit.
  destruct (N.ltb_spec d 10).
  - bool_cases; cbn [andb]; f_equal; lia.
  - bool_cases; cbn [andb]; f_equal; lia.
Qed.

Lemma hex_digits_value (c : code_unit) :
  c < 65536 ->
  (((c / 4096) mod 16 * 16 + (c / 256) mod 16) * 16 + (c / 16) mod 16) * 16
  + c mod 16 = c.
Proof.
  intros Hc.
  change 4096 with (16 * (16 * 16)). change 256 with (16 * 16).
  rewrite <- !N.Div0.div_div.
  pose proof (N.div_mod c 16 ltac:(discriminate)).
  pose proof (N.div_mod (c / 16) 16 ltac:(discriminate)).
  pose proof (N.div_mod (c / 16 / 16) 16 ltac:(discriminate)).
  assert (c / 16 / 16 / 16 < 16).
  { repeat (apply N.Div0.div_lt_upper_bound). simpl. exact Hc. }
  rewrite (N.mod_small (c / 16 / 16 / 16) 16) by assumption.
  lia.
Qed.

Lemma hex4_escape (c : code_unit) :
  c < 65536 ->
  hex4 (hex_digit ((c / 4096) mod 16)) (hex_digit ((c / 256) mod 16))
       (hex_digit ((c / 16) mod 16)) (hex_digit (c mod 16)) = Some c.
Proof.
  intros Hc. unfold hex4.
  rewrite !hex_val_digit by (apply N.mod_lt; discriminate).
  f_equal. apply hex_digits_value, Hc.
Qed.

Lemma parse_chars_u (a b c d : code_unit) (t acc : jsstring) :
  parse_chars (BACKSLASH :: 0x75 :: a :: b :: c :: d :: t) acc =
  match hex4 a b c d with
  | Some u => parse_chars t (u :: acc)
  | None => None
  end.
Proof. reflexivity. Qed.

Lemma parse_chars_escape (c : code_unit) (t acc : jsstring) :
  c < 65536 -> parse_chars (unicode_escape c ++ t) acc = parse_chars t (c :: acc).
Proof.
  intros Hc. unfold unicode_escape. cbn [app].
  rewrite parse_chars_u, hex4_escape by exact Hc. reflexivity.
Qed.

Lemma parse_chars_plain (c : code_unit) (t acc : jsstring) :
  0x20 <= c -> c <> DQUOTE -> c <> BACKSLASH ->
  parse_chars (c :: t) acc = parse_chars t (c :: acc).
Proof.
  intros Hlow Hq Hb. cbn -[N.eqb N.ltb hex4 escape_char].
  rewrite (proj2 (N.eqb_neq c DQUOTE) Hq), (proj2 (N.eqb_neq c BACKSLASH) Hb).
  rewrite (proj2 (N.ltb_ge c 0x20) Hlow). reflexivity.
Qed.

Lemma surrogate_bounds (c : code_unit) :
  (c <? 0x20) || is_lead c || is_trail c = true -> c < 65536.
Proof.
  unfold is_lead, is_trail.
  rewrite !orb_true_iff, !andb_true_iff, N.ltb_lt, !N.leb_le. lia.
Qed.

Lemma parse_chars_unit (c : code_unit) (t acc : jsstring) :
  parse_chars (quote_unit c ++ t) acc = parse_chars t (c :: acc).
Proof.
  unfold quote_unit.
  repeat match goal with
    | |- context [if ?a =? ?b then _ else _] =>
        destruct (N.eqb_spec a b) as [-> | ?]; [reflexivity | ]
    end.
  destruct ((c <? 0x20) || is_lead c || is_trail c) eqn:E.
  - apply parse_chars_escape, surrogate_bounds, E.
  - apply orb_false_iff in E as [E _]. apply orb_false_iff in E as [E _].
    apply N.ltb_ge in E. apply parse_chars_plain; assumption.
Qed.

Lemma parse_chars_quote_units_le (n : nat) :
  forall s rest acc,
    (List.length s <= n)%nat ->
    parse_chars (quote_units s ++ DQUOTE :: rest) acc = Some (List.rev acc ++ s, rest).
Proof.
  induction n as [| n IH]; intros s rest acc Hlen.
  - destruct s; [| simpl in Hlen; lia].
    simpl. rewrite app_nil_r. reflexivity.
  - destruct s as [| c t].
    + simpl. rewrite app_nil_r. reflexivity.
    + simpl in Hlen. cbn [quote_units].
      destruct (is_lead c) eqn:Elead.
      * assert (Hc : c < 65536) by (apply surrogate_bounds; rewrite Elead, orb_true_r; reflexivity).
        destruct t as [| d t'].
        -- rewrite parse_chars_escape by exact Hc. reflexivity.
        -- destruct (is_trail d) eqn:Etrail.
           ++ unfold is_lead in Elead. unfold is_trail in Etrail.
              apply andb_true_iff in Elead as [Hl1 Hl2].
              apply andb_true_iff in Etrail as [Ht1 Ht2].
              apply N.leb_le in Hl1, Hl2, Ht1, Ht2.
              cbn [app].
              rewrite !parse_chars_plain by (unfold DQUOTE, BACKSLASH; lia).
              rewrite IH by (simpl in Hlen; lia).
              cbn [List.rev]. rewrite <- !app_assoc. reflexivity.
           ++ rewrite <- app_assoc, parse_chars_escape by exact Hc.
              rewrite IH by lia.
              cbn [List.rev]. rewrite <- app_assoc. reflexivity.
      * rewrite <- app_assoc, parse_chars_unit, IH by lia.
        cbn [List.rev]. rewrite <- app_assoc. reflexivity.
Qed.

(** A quoted string is read back as the string it was written from. *)
Lemma parse_chars_quote_units (s rest : jsstring) :
  parse_chars (quote_units s ++ DQUOTE :: rest) [] = Some (s, rest).
Proof.
  apply (parse_chars_quote_units_le (List.length s) s rest []). lia.
Qed.

(** ** The parser on sample texts *)

Example JSON_parse_array :
  JSON_parse (js " [1, -2.5e+3, true, null, [ ] ] ") =
  inr (JArr [JNum (js "1"); JNum (js "-2.5e+3"); JBool true; JNull; JArr []]).
Proof. reflexivity. Qed.

Example JSON_parse_duplicate_member :
  JSON_parse (jsq "{'a':1,'b':{},'a':2}") =
  inr (JObj [(js "a", JNum (js "2")); (js "b", JObj [])]).
Proof. reflexivity. Qed.

Example JSON_parse_rejects :
  List.map JSON_parse [js ""; js "01"; js "[1,]"; js "nul"; js "1 2"; js "{'a':1}"] =
  [inl (SyntaxError "Unexpected token in JSON");
   inl (SyntaxError "Unexpected non-whitespace character after JSON");
   inl (SyntaxError "Unexpected token in JSON");
   inl (SyntaxError "Unexpected token in JSON");
   inl (SyntaxError "Unexpected non-whitespace character after JSON");
   inl (SyntaxError "Unexpected token in JSON")].
Proof. reflexivity. Qed.

Example JSON_stringify_escapes :
  JSON_stringify (JStr [0x61; DQUOTE; 0x0A; 0x07; 0xD83D; 0xDE00; 0xDC00; 0xE9]) =
  DQUOTE :: js "a" ++ [BACKSLASH; DQUOTE] ++ js "\n\u0007" ++ [0xD83D; 0xDE00]
    ++ js "\udc00" ++ [0xE9; DQUOTE].
Proof. reflexivity. Qed.

(** ** Reading back an object with one string member *)

Lemma stringify_string_member (k m : jsstring) :
  JSON_stringify (JObj [(k, JStr m)]) =
  LBRACE :: DQUOTE :: quote_units k ++ DQUOTE :: COLON :: DQUOTE ::
    quote_units m ++ DQUOTE :: [RBRACE].
Proof.
  cbn [JSON_stringify List.map join_comma fst snd]. unfold QuoteJSONString.
  cbn [app]. rewrite <- !app_assoc. cbn [app]. rewrite <- !app_assoc. reflexivity.
Qed.

Lemma parse_value_string_member (n : nat) (k m : jsstring) :
  parse_value (S (S (S n))) (JSON_stringify (JObj [(k, JStr m)])) =
  POk (JObj [(k, JStr m)]) [].
Proof.
  rewrite stringify_string_member.
  cbn -[parse_chars].
  rewrite parse_chars_quote_units.
  cbn -[parse_chars].
  rewrite parse_chars_quote_units.
  reflexivity.
Qed.

Lemma JSON_parse_string_member (k m : jsstring) :
  JSON_parse (JSON_stringify (JObj [(k, JStr m)])) = inr (JObj [(k, JStr m)]).
Proof.
  unfold JSON_parse, parse_fuel.
  assert (H : exists n, (2 * List.length (JSON_stringify (JObj [(k, JStr m)])) + 2 = S (S (S n)))%nat).
  { rewrite stringify_string_member. cbn [List.length].
    exists (2 * List.length (quote_units k ++ DQUOTE :: COLON :: DQUOTE :: quote_units m ++ DQUOTE :: [RBRACE]) + 3)%nat. lia. }
  destruct H as [n ->].
  rewrite parse_value_string_member. reflexivity.
Qed.

(** ** The recursion budget of [JSON_parse] is never exhausted *)

Lemma skip_ws_length (s r : jsstring) :
  skip_ws s = r -> (List.length r <= List.length s)%nat.
Proof.
  revert r. induction s as [| c t IH]; intros r H; simpl in H.
  - subst. simpl. lia.
  - destruct (is_ws c).
    + apply IH in H. simpl. lia.
    + subst. lia.
Qed.

Lemma parse_chars_length_le (n : nat) :
  forall s acc str r,
    (List.length s <= n)%nat ->
    parse_chars s acc = Some (str, r) -> (List.length r < List.length s)%nat.
Proof.
  induction n as [| n IH]; intros s acc str r Hlen H.
  - destruct s; [discriminate | simpl in Hlen; lia].
  - destruct s as [| c t]; [discriminate |].
    simpl in Hlen. cbn -[N.eqb N.ltb hex4 escape_char] in H.
    destruct (c =? DQUOTE).
    { injection H as _ <-. simpl. lia. }
    destruct (c =? BACKSLASH).
    + destruct t as [| e t1]; [discriminate |].
      destruct (e =? 0x75).
      * destruct t1 as [| h3 [| h2 [| h1 [| h0 t2]]]]; try discriminate.
        destruct (hex4 h3 h2 h1 h0); [| discriminate].
        apply IH in H; simpl in *; lia.
      * destruct (escape_char e); [| discriminate].
        apply IH in H; simpl in *; lia.
    + destruct (c <? 0x20); [discriminate |].
      apply IH in H; simpl in *; lia.
Qed.

Lemma parse_chars_length (s acc str r : jsstring) :
  parse_chars s acc = Some (str, r) -> (List.length r < List.length s)%nat.
Proof. apply (parse_chars_length_le (List.length s)). lia. Qed.

Lemma span_digits_length (s ds r : jsstring) :
  span_digits s = (ds, r) -> (List.length r <= List.length s)%nat.
Proof.
  revert ds r. induction s as [| c t IH]; intros ds r H; simpl in H.
  - injection H as _ <-. simpl. lia.
  - destruct (is_digit c).
    + destruct (span_digits t) as [ds' r'] eqn:E.
      injection H as _ <-. specialize (IH ds' r' eq_refl). simpl. lia.
    + injection H as _ <-. lia.
Qed.

Ltac break_match :=
  match goal with
  | H : context [match ?x with _ => _ end] |- _ => destruct x eqn:?
  | H : context [if ?x then _ else _] |- _ => destruct x eqn:?
  end.

Ltac length_facts :=
  repeat match goal with
    | H : skip_ws _ = _ |- _ => apply skip_ws_length in H
    | H : parse_chars _ _ = Some _ |- _ => apply parse_chars_length in H
    | H : span_digits _ = _ |- _ => apply span_digits_length in H
    end.

Ltac inj :=
  repeat match goal with
    | E : Some _ = Some _ |- _ => injection E as E
    | E : (_, _) = (_, _) |- _ => injection E as ? ?
    end;
  subst.

Lemma parse_number_length (s lexeme r : jsstring) :
  parse_number s = Some (lexeme, r) -> (List.length r < List.length s)%nat.
Proof.
  unfold parse_number, parse_int, parse_frac, parse_exp. intros H.
  repeat (break_match; try discriminate);
    inj; length_facts; simpl in *; lia.
Qed.

Lemma strip_prefix_length (kw s r : jsstring) :
  strip_prefix kw s = Some r ->
  (List.length r + List.length kw = List.length s)%nat.
Proof.
  revert s. induction kw as [| k kw IH]; intros s H; simpl in H.
  - injection H as <-. simpl. lia.
  - destruct s as [| c s']; [discriminate |].
    destruct (k =? c); [| discriminate].
    apply IH in H. simpl. lia.
Qed.

Ltac inj_pres :=
  repeat match goal with
    | E : POk _ _ = POk _ _ |- _ => injection E as ? ?
    end;
  subst.

(** Every parser that succeeds has read at least one code unit. *)
Lemma parse_shrinks (f : nat) :
  (forall s v r, parse_value f s = POk v r ->
                 (List.length r < List.length s)%nat) /\
  (forall s acc v r, parse_elements f s acc = POk v r ->
                     (List.length r < List.length s)%nat) /\
  (forall s acc v r, parse_members f s acc = POk v r ->
                     (List.length r < List.length s)%nat).
Proof.
  induction f as [| f [IHv [IHe IHm]]].
  - repeat split; intros; discriminate.
  - repeat split; intros.
    + cbn [parse_value] in H.
      repeat (break_match; try discriminate); inj_pres;
        repeat match goal with
          | E : parse_elements f _ _ = POk _ _ |- _ => apply IHe in E
          | E : parse_members f _ _ = POk _ _ |- _ => apply IHm in E
          | E : parse_number _ = Some _ |- _ => apply parse_number_length in E
          | E : strip_prefix _ _ = Some _ |- _ => apply strip_prefix_length in E
          end;
        length_facts; simpl in *; lia.
    + cbn [parse_elements] in H.
      repeat (break_match; try discriminate); inj_pres;
        repeat match goal with
          | E : parse_value f _ = POk _ _ |- _ => apply IHv in E
          | E : parse_elements f _ _ = POk _ _ |- _ => apply IHe in E
          end;
        length_facts; simpl in *; lia.
    + cbn [parse_members] in H.
      repeat (break_match; try discriminate); inj_pres;
        repeat match goal with
          | E : parse_value f _ = POk _ _ |- _ => apply IHv in E
          | E : parse_members f _ _ = POk _ _ |- _ => apply IHm in E
          end;
        length_facts; simpl in *; lia.
Qed.

Ltac shrink_facts f :=
  repeat match goal with
    | E : parse_value f _ = POk _ _ |- _ => apply (proj1 (parse_shrinks f)) in E
    | E : parse_number _ = Some _ |- _ => apply parse_number_length in E
    end;
  length_facts; simpl in *; lia.

Lemma parse_fuel_enough (f : nat) :
  (forall s, (2 * List.length s < f)%nat -> parse_value f s <> PFuel) /\
  (forall s acc, (2 * List.length s + 1 < f)%nat ->
                 parse_elements f s acc <> PFuel) /\
  (forall s acc, (2 * List.length s + 1 < f)%nat ->
                 parse_members f s acc <> PFuel).
Proof.
  induction f as [| f [IHv [IHe IHm]]].
  - repeat split; intros; lia.
  - repeat split; [intros s Hlen H | intros s acc Hlen H | intros s acc Hlen H].
    + cbn [parse_value] in H.
      repeat (break_match; try discriminate).
      * apply (IHe _ _) in H; [destruct H | shrink_facts f].
      * apply (IHm _ _) in H; [destruct H | shrink_facts f].
    + cbn [parse_elements] in H.
      repeat (break_match; try discriminate).
      * apply (IHe _ _) in H; [destruct H | shrink_facts f].
      * match goal with
        | E : parse_value f _ = PFuel |- _ =>
            apply (IHv _) in E; [destruct E | shrink_facts f]
        end.
    + cbn [parse_members] in H.
      repeat (break_match; try discriminate).
      * apply (IHm _ _) in H; [destruct H | shrink_facts f].
      * match goal with
        | E : parse_value f _ = PFuel |- _ =>
            apply (IHv _) in E; [destruct E | shrink_facts f]
        end.
Qed.

(** The budget [JSON_parse] starts with is enough for every text. *)
Lemma parse_value_fuel (text : jsstring) :
  parse_value (parse_fuel text) text <> PFuel.
Proof.
  apply (proj1 (parse_fuel_enough (parse_fuel text))).
  unfold parse_fuel. lia.
Qed.

(** * The demo handler *)

Lemma Headers_get_user_agent (hs : Headers) :
  Headers_get hs (js "user-agent") =
  inr match header_values (js "user-agent") hs with
      | [] => None
      | v :: vs => Some (join_values (v :: vs))
      end.
Proof.
  unfold Headers_get.
  change (is_header_name (js "user-agent")) with true.
  destruct (header_values (js "user-agent") hs); reflexivity.
Qed.

Lemma body_json_Response_json (k m : jsstring) :
  body_json (Response_json (JObj [(k, JStr m)])) = inr (JObj [(k, JStr m)]).
Proof.
  unfold body_json, Response_json. cbn [resp_body rbind].
  apply JSON_parse_string_member.
Qed.

Lemma response_message_Response_json (m : jsstring) :
  response_message (Response_json (JObj [(js "message", JStr m)])) = Some m.
Proof.
  unfold response_message. rewrite body_json_Response_json. reflexivity.
Qed.

(** The handler at a request whose [user-agent] lookup gives [agent]. *)
Lemma GET_of_agent (request : Request) (agent : option jsstring) :
  Headers_get (req_headers request) (js "user-agent") = inr agent ->
  DemoRoute.GET request =
  inr (Response_json
         (JObj [(js "message", JStr (DemoRoute.greeting ++ ToString agent))])).
Proof.
  intros H. unfold DemoRoute.GET. rewrite H. reflexivity.
Qed.

(** C1. A request whose [user-agent] header has the value [X] is answered
    with a JSON body whose [message] is the text [Hello "/api/demo"! Agent: ]
    followed by [X]. *)
Theorem GET_message_with_agent (request : Request) (X : jsstring) :
  Headers_get (req_headers request) (js "user-agent") = inr (Some X) ->
  exists response,
    DemoRoute.GET request = inr response /\
    response_message response =
      Some (js "Hello " ++ DQUOTE :: js "/api/demo" ++ DQUOTE :: js "! Agent: " ++ X).
Proof.
  intros H. eexists. split.
  - apply GET_of_agent, H.
  - rewrite response_message_Response_json. reflexivity.
Qed.

Lemma GET_message_with_agent_witness :
  exists response,
    DemoRoute.GET curl_request = inr response /\
    response_message response =
      Some (js "Hello " ++ DQUOTE :: js "/api/demo" ++ DQUOTE :: js "! Agent: curl/8.5.0").
Proof.
  apply (GET_message_with_agent curl_request (js "curl/8.5.0")).
  reflexivity.
Defined.

(** C2. A request with no [user-agent] header is answered all the same: the
    handler returns a response and does not throw, the missing header reads
    as [null], and the message ends in [Agent: null]. *)
Theorem GET_message_without_agent (request : Request) :
  header_values (js "user-agent") (req_headers request) = [] ->
  exists response m,
    Headers_get (req_headers request) (js "user-agent") = inr None /\
    DemoRoute.GET request = inr response /\
    response_message response = Some m /\
    m = DemoRoute.greeting ++ js "null" /\
    contains m (js "Agent: null").
Proof.
  intros H.
  assert (Hget : Headers_get (req_headers request) (js "user-agent") = inr None).
  { rewrite Headers_get_user_agent, H. reflexivity. }
  eexists. eexists. split; [exact Hget |]. split; [apply GET_of_agent, Hget |].
  split; [apply response_message_Response_json |]. split; [reflexivity |].
  exists (js "Hello " ++ DQUOTE :: js "/api/demo" ++ DQUOTE :: js "! "), [].
  reflexivity.
Qed.

Lemma GET_message_without_agent_witness :
  exists response m,
    Headers_get (req_headers bare_request) (js "user-agent") = inr None /\
    DemoRoute.GET bare_request = inr response /\
    response_message response = Some m /\
    m = DemoRoute.greeting ++ js "null" /\
    contains m (js "Agent: null").
Proof.
  apply (GET_message_without_agent bare_request). reflexivity.
Defined.

(** C3. Every request is answered with status 200 and a JSON body that is an
    object with the single member [message], a string; the handler has no
    other outcome. *)
Theorem GET_status_and_shape (request : Request) :
  exists response m,
    DemoRoute.GET request = inr response /\
    status response = 200 /\
    body_json response = inr (JObj [(js "message", JStr m)]).
Proof.
  eexists. eexists. split; [| split].
  - apply GET_of_agent, Headers_get_user_agent.
  - reflexivity.
  - apply body_json_Response_json.
Qed.

(** C8. Two requests whose [user-agent] lookups agree, both absent included,
    get the same response and so the same message, whatever their other
    headers, bodies, methods and URLs are. *)
Theorem GET_depends_on_agent_only (r1 r2 : Request) :
  Headers_get (req_headers r1) (js "user-agent") =
  Headers_get (req_headers r2) (js "user-agent") ->
  DemoRoute.GET r1 = DemoRoute.GET r2 /\
  exists m, GET_message r1 = Some m /\ GET_message r2 = Some m.
Proof.
  intros H.
  assert (E : DemoRoute.GET r1 = DemoRoute.GET r2).
  { unfold DemoRoute.GET. rewrite H. reflexivity. }
  split; [exact E |].
  unfold GET_message. rewrite <- E.
  rewrite (GET_of_agent r1 _ (Headers_get_user_agent _)).
  rewrite response_message_Response_json. eexists. split; reflexivity.
Qed.

Lemma GET_depends_on_agent_only_witness :
  DemoRoute.GET curl_request = DemoRoute.GET post_request /\
  exists m, GET_message curl_request = Some m /\ GET_message post_request = Some m.
Proof.
  apply (GET_depends_on_agent_only curl_request post_request). reflexivity.
Defined.

(** C9. The message of every request starts with the text
    [Hello "/api/demo"! Agent: ], and what follows is the value the
    [user-agent] lookup gave, code unit for code unit ([null] for a missing
    header): nothing is escaped, cut or dropped. *)
Theorem GET_message_prefix_verbatim (request : Request) :
  exists agent m,
    Headers_get (req_headers request) (js "user-agent") = inr agent /\
    GET_message request = Some m /\
    List.firstn (List.length DemoRoute.greeting) m =
      js "Hello " ++ DQUOTE :: js "/api/demo" ++ DQUOTE :: js "! Agent: " /\
    List.skipn (List.length DemoRoute.greeting) m =
      match agent with Some X => X | None => js "null" end.
Proof.
  eexists. eexists. split; [apply Headers_get_user_agent |].
  split.
  - unfold GET_message.
    rewrite (GET_of_agent request _ (Headers_get_user_agent _)).
    apply response_message_Response_json.
  - split.
    + rewrite firstn_app, Nat.sub_diag, firstn_all. cbn [List.firstn].
      rewrite app_nil_r. reflexivity.
    + rewrite skipn_app, Nat.sub_diag, skipn_all. cbn [List.skipn app].
      destruct (header_values _ _); reflexivity.
Qed.

(** * The root route *)

(** A run of the server function, whatever it is called with: one fetch is
    started and awaited, and the run ends as the fetch and the reading of
    its response end. *)
Lemma getMessageFn_run (w : World) (args : list json) :
  run (IndexRoute.getMessageFn args) w =
  ({| log := [FetchStart 0 api_request; FetchSettle 0]; next_id := 1 |},
   rbind (network w 0 api_request) body_json).
Proof.
  unfold run, IndexRoute.getMessageFn, bind, fetch, await, Response_json_method, ret.
  cbn [log next_id initial app p_fetch p_outcome].
  fold api_request.
  destruct (network w 0 api_request) as [e | response]; cbn [rbind].
  - reflexivity.
  - unfold body_json. destruct (rbind (resp_body response) JSON_parse); reflexivity.
Qed.

Lemma loader_run (w : World) :
  run IndexRoute.loader w = run (IndexRoute.getMessageFn []) w.
Proof.
  unfold run, IndexRoute.loader, bind, ret.
  destruct (IndexRoute.getMessageFn [] w initial) as [st [e | v]]; reflexivity.
Qed.

Lemma page_load_run (w : World) :
  run IndexRoute.page_load w =
  (fst (run IndexRoute.loader w),
   rbind (snd (run IndexRoute.loader w)) IndexRoute.App).
Proof.
  unfold run, IndexRoute.page_load, bind, lift.
  destruct (IndexRoute.loader w initial) as [st [e | v]]; reflexivity.
Qed.

(** The log tells runs apart: a run that starts two fetches before it
    awaits either has two of them in flight. *)
Example two_fetches_in_flight (w : World) :
  in_flight
    (List.firstn 2
       (log (fst (run (bind (fetch IndexRoute.api_url) (fun p =>
                       bind (fetch IndexRoute.api_url) (fun q =>
                       bind (await p) (fun _ => await q)))) w)))) = 2%nat.
Proof.
  unfold run, bind, fetch, await. cbn [log next_id initial app p_fetch p_outcome].
  destruct (network w 0 (GET_request IndexRoute.api_url)),
    (network w 1 (GET_request IndexRoute.api_url)); reflexivity.
Qed.

(** C4. Whatever the environment variables, the network and the arguments of
    the call are, a run of [getMessageFn] issues its request with the method
    GET to the URL [http://localhost:3000/api/demo]. *)
Theorem getMessageFn_fixed_url (w : World) (args : list json) :
  started (log (fst (run (IndexRoute.getMessageFn args) w))) =
  [ {| req_method := js "GET";
       req_url := js "http://localhost:3000/api/demo";
       req_headers := [];
       req_body := None |} ].
Proof. rewrite getMessageFn_run. reflexivity. Qed.

(** C5. A run of [getMessageFn] fetches once.  If the fetch rejects with
    [e], the run throws [e]; if reading the body fails with [e], or the body
    is not JSON and the parser throws [e], the run throws [e]; and if the
    body parses to [v], the run returns [v]. *)
Theorem getMessageFn_propagates (w : World) (args : list json) :
  List.length (started (log (fst (run (IndexRoute.getMessageFn args) w)))) = 1%nat /\
  (forall e,
      network w 0 api_request = inl e ->
      snd (run (IndexRoute.getMessageFn args) w) = inl e) /\
  (forall response e,
      network w 0 api_request = inr response ->
      resp_body response = inl e ->
      snd (run (IndexRoute.getMessageFn args) w) = inl e) /\
  (forall response text e,
      network w 0 api_request = inr response ->
      resp_body response = inr text ->
      JSON_parse text = inl e ->
      snd (run (IndexRoute.getMessageFn args) w) = inl e) /\
  (forall response text v,
      network w 0 api_request = inr response ->
      resp_body response = inr text ->
      JSON_parse text = inr v ->
      snd (run (IndexRoute.getMessageFn args) w) = inr v).
Proof.
  rewrite getMessageFn_run. cbn [fst snd log].
  split; [reflexivity |].
  repeat split; intros.
  - rewrite H. reflexivity.
  - rewrite H. unfold body_json. cbn [rbind]. rewrite H0. reflexivity.
  - rewrite H. unfold body_json. cbn [rbind]. rewrite H0. exact H1.
  - rewrite H. unfold body_json. cbn [rbind]. rewrite H0. exact H1.
Qed.

Lemma getMessageFn_propagates_witness :
  snd (run (IndexRoute.getMessageFn []) world_down) = inl (TypeError "fetch failed") /\
  snd (run (IndexRoute.getMessageFn []) world_html) =
    inl (SyntaxError "Unexpected token in JSON") /\
  snd (run (IndexRoute.getMessageFn []) world_error_status) = inr (JObj []).
Proof.
  split; [| split].
  - apply (proj1 (proj2 (getMessageFn_propagates world_down []))). reflexivity.
  - eapply (proj1 (proj2 (proj2 (proj2 (getMessageFn_propagates world_html []))))).
    + reflexivity.
    + reflexivity.
    + reflexivity.
  - eapply (proj2 (proj2 (proj2 (proj2 (getMessageFn_propagates world_error_status []))))).
    + reflexivity.
    + reflexivity.
    + reflexivity.
Defined.

(** C10. The run does not look at the response it got: whatever the status,
    status text and headers are, a body that parses to [v] makes the run
    return [v], whether or not [v] is an object with a [message]. *)
Theorem getMessageFn_no_validation
  (w : World) (args : list json) (code : N) (reason : jsstring)
  (headers : Headers) (text : jsstring) (v : json) :
  network w 0 api_request =
    inr {| status := code; statusText := reason;
           resp_headers := headers; resp_body := inr text |} ->
  JSON_parse text = inr v ->
  snd (run (IndexRoute.getMessageFn args) w) = inr v.
Proof.
  intros Hnet Hparse. rewrite getMessageFn_run. cbn [snd].
  rewrite Hnet. unfold body_json. cbn [rbind resp_body]. exact Hparse.
Qed.

Lemma getMessageFn_no_validation_witness :
  snd (run (IndexRoute.getMessageFn []) world_error_status) = inr (JObj []) /\
  destructure_message (JObj []) = inr None.
Proof.
  split.
  - apply (getMessageFn_no_validation world_error_status [] 500
             (js "Internal Server Error")
             [(js "content-type", js "application/json")] (js "{ }") (JObj []));
      reflexivity.
  - reflexivity.
Defined.

(** C7. A run of the loader starts one fetch and awaits it before anything
    else happens: its log is the start of that fetch followed by its
    settling, so that one request goes out and after no prefix of the log is
    more than one fetch in flight. *)
Theorem loader_single_fetch (w : World) :
  log (fst (run IndexRoute.loader w)) = [FetchStart 0 api_request; FetchSettle 0] /\
  List.length (started (log (fst (run IndexRoute.loader w)))) = 1%nat /\
  forall n, (in_flight (List.firstn n (log (fst (run IndexRoute.loader w)))) <= 1)%nat.
Proof.
  rewrite loader_run, getMessageFn_run. cbn [fst log].
  split; [reflexivity |]. split; [reflexivity |].
  intros [| [| [| n]]]; cbn; lia.
Qed.

(** C6. A load of the root route that succeeds has rendered the [div] whose
    only child is the [message] property of what [getMessageFn] returned in
    that load.  When the request was answered by the demo handler, that
    child is the very message the handler wrote into its response. *)
Theorem page_load_renders_message (w : World) :
  (forall st element,
      run IndexRoute.page_load w = (st, inr element) ->
      exists data,
        run (IndexRoute.getMessageFn []) w = (st, inr data) /\
        destructure_message data = inr (el_children element) /\
        element = message_div (el_children element)) /\
  (forall request response,
      DemoRoute.GET request = inr response ->
      network w 0 api_request = inr response ->
      exists m,
        response_message response = Some m /\
        snd (run IndexRoute.page_load w) = inr (message_div (Some (JStr m)))).
Proof.
  split.
  - intros st element H.
    rewrite page_load_run, loader_run in H.
    destruct (run (IndexRoute.getMessageFn []) w) as [st' [e | data]];
      cbn [fst snd rbind] in H; [discriminate |].
    injection H as <- H.
    exists data. split; [reflexivity |].
    unfold IndexRoute.App in H.
    destruct (destructure_message data) as [e | child]; cbn [rbind] in H;
      [discriminate |].
    injection H as <-. split; reflexivity.
  - intros request response HGET Hnet.
    rewrite (GET_of_agent request _ (Headers_get_user_agent _)) in HGET.
    injection HGET as <-.
    eexists. split; [apply response_message_Response_json |].
    rewrite page_load_run, loader_run, getMessageFn_run. cbn [fst snd].
    rewrite Hnet. cbn [rbind]. rewrite body_json_Response_json. reflexivity.
Qed.

Lemma page_load_renders_message_witness :
  exists m,
    GET_message
      {| req_method := js "GET"; req_url := IndexRoute.api_url;
         req_headers := [(js "user-agent", js "node")]; req_body := None |} = Some m /\
    m = js "Hello " ++ DQUOTE :: js "/api/demo" ++ DQUOTE :: js "! Agent: node" /\
    snd (run IndexRoute.page_load world_loopback) = inr (message_div (Some (JStr m))).
Proof.
  destruct (proj2 (page_load_renders_message world_loopback)
              {| req_method := js "GET"; req_url := IndexRoute.api_url;
                 req_headers := [(js "user-agent", js "node")]; req_body := None |}
              (Response_json
                 (JObj [(js "message",
                         JStr (js "Hello " ++ DQUOTE :: js "/api/demo" ++ DQUOTE ::
                               js "! Agent: node"))]))
              eq_refl eq_refl) as [m [Hm Hrun]].
  exists m. split; [exact Hm |]. split; [| exact Hrun].
  vm_compute in Hm. injection Hm as <-. reflexivity.
Defined.

(** * Further properties of the demo handler *)

Lemma header_values_same_up_to_case (name : jsstring) (hs hs' : Headers) :
  same_up_to_case hs hs' -> header_values name hs = header_values name hs'.
Proof.
  intros H. induction H as [| [n v] [n' v'] hs hs' [Hn Hv] _ IH].
  - reflexivity.
  - cbn [fst snd] in Hn, Hv. subst v'.
    cbn [header_values]. unfold header_name_eqb. rewrite Hn, IH. reflexivity.
Qed.

(** X1. The case of the letters of header names does not matter to the
    handler: two requests whose header lists agree up to that case get the
    same response. *)
Theorem GET_header_name_case (r1 r2 : Request) :
  same_up_to_case (req_headers r1) (req_headers r2) ->
  DemoRoute.GET r1 = DemoRoute.GET r2.
Proof.
  intros H. unfold DemoRoute.GET.
  rewrite !Headers_get_user_agent.
  rewrite (header_values_same_up_to_case _ _ _ H). reflexivity.
Qed.

Lemma GET_header_name_case_witness :
  DemoRoute.GET curl_request =
  DemoRoute.GET
    (with_headers curl_request
       [(js "ACCEPT", js "*/*"); (js "uSER-aGENT", js "curl/8.5.0")]).
Proof.
  apply (GET_header_name_case curl_request
           (with_headers curl_request
              [(js "ACCEPT", js "*/*"); (js "uSER-aGENT", js "curl/8.5.0")])).
  repeat constructor.
Defined.

Lemma GET_message_of_agent (request : Request) (agent : option jsstring) :
  Headers_get (req_headers request) (js "user-agent") = inr agent ->
  GET_message request = Some (DemoRoute.greeting ++ ToString agent).
Proof.
  intros H. unfold GET_message. rewrite (GET_of_agent request agent H).
  apply response_message_Response_json.
Qed.

(** X2. When a request has several [user-agent] headers, none is dropped:
    the message carries the values of all of them, in the order of the
    header list, separated by a comma and a space. *)
Theorem GET_joins_repeated_agents (request : Request) (v : jsstring) (vs : list jsstring) :
  header_values (js "user-agent") (req_headers request) = v :: vs ->
  GET_message request =
  Some (DemoRoute.greeting ++ v ++
        List.concat (List.map (fun x => COMMA :: 0x20 :: x) vs)).
Proof.
  intros H. rewrite (GET_message_of_agent request (Some (join_values (v :: vs)))).
  - cbn [ToString]. do 2 f_equal.
    clear H. revert v. induction vs as [| x vs IH]; intros v.
    + cbn. rewrite app_nil_r. reflexivity.
    + change (join_values (v :: x :: vs)) with (v ++ COMMA :: 0x20 :: join_values (x :: vs)).
      rewrite IH. cbn [List.map List.concat app]. reflexivity.
  - rewrite Headers_get_user_agent, H. reflexivity.
Qed.

Lemma GET_joins_repeated_agents_witness :
  GET_message proxied_request =
  Some (DemoRoute.greeting ++ js "curl/8.5.0" ++
        List.concat (List.map (fun x => COMMA :: 0x20 :: x) [js "proxy/1.0"])).
Proof.
  apply (GET_joins_repeated_agents proxied_request (js "curl/8.5.0") [js "proxy/1.0"]).
  reflexivity.
Defined.

(** X3. The handler cannot tell a request without a [user-agent] header from
    one whose [user-agent] is the four letters [null]: both get the same
    response. *)
Theorem GET_absent_same_as_null_text (r1 r2 : Request) :
  header_values (js "user-agent") (req_headers r1) = [] ->
  Headers_get (req_headers r2) (js "user-agent") = inr (Some (js "null")) ->
  DemoRoute.GET r1 = DemoRoute.GET r2.
Proof.
  intros H1 H2.
  rewrite (GET_of_agent r2 _ H2).
  apply (GET_of_agent r1 None). rewrite Headers_get_user_agent, H1. reflexivity.
Qed.

Lemma GET_absent_same_as_null_text_witness :
  DemoRoute.GET bare_request = DemoRoute.GET null_agent_request.
Proof.
  apply (GET_absent_same_as_null_text bare_request null_agent_request);
    reflexivity.
Defined.

(** X4. The message tells the [user-agent] values apart: two requests whose
    [user-agent] values differ get different messages. *)
Theorem GET_distinct_agents_distinct_messages (r1 r2 : Request) (X Y : jsstring) :
  Headers_get (req_headers r1) (js "user-agent") = inr (Some X) ->
  Headers_get (req_headers r2) (js "user-agent") = inr (Some Y) ->
  X <> Y ->
  GET_message r1 <> GET_message r2.
Proof.
  intros H1 H2 Hne E. apply Hne.
  rewrite (GET_message_of_agent r1 _ H1), (GET_message_of_agent r2 _ H2) in E.
  cbn [ToString] in E.
  assert (E' : DemoRoute.greeting ++ X = DemoRoute.greeting ++ Y) by congruence.
  exact (app_inv_head _ _ _ E').
Qed.

Lemma GET_distinct_agents_distinct_messages_witness :
  js "curl/8.5.0" <> js "null" /\
  GET_message curl_request <> GET_message null_agent_request.
Proof.
  split; [discriminate |].
  apply (GET_distinct_agents_distinct_messages curl_request null_agent_request
           (js "curl/8.5.0") (js "null")); [reflexivity | reflexivity | discriminate].
Defined.

(** * Further properties of the root route *)

Lemma pending_app (l1 l2 : list event) (before : list nat) :
  pending (l1 ++ l2) before = pending l2 (pending l1 before).
Proof.
  revert before. induction l1 as [| [id req | id] l1 IH]; intros before;
    cbn [app pending]; [reflexivity | apply IH | apply IH].
Qed.

Lemma getMessageFn_from_state (w : World) (args : list json) (st : AState) :
  IndexRoute.getMessageFn args w st =
  ({| log := log st ++ [FetchStart (next_id st) api_request; FetchSettle (next_id st)];
      next_id := S (next_id st) |},
   rbind (network w (next_id st) api_request) body_json).
Proof.
  unfold IndexRoute.getMessageFn, bind, fetch, await, Response_json_method, ret.
  cbn [log next_id p_fetch p_outcome]. fold api_request.
  rewrite <- app_assoc. cbn [app].
  destruct (network w (next_id st) api_request) as [e | response]; cbn [rbind].
  - reflexivity.
  - unfold body_json. destruct (rbind (resp_body response) JSON_parse); reflexivity.
Qed.

Lemma loader_from_state (w : World) (st : AState) :
  IndexRoute.loader w st = IndexRoute.getMessageFn [] w st.
Proof.
  unfold IndexRoute.loader, bind, ret.
  destruct (IndexRoute.getMessageFn [] w st) as [st' [e | v]]; reflexivity.
Qed.

(** X5. Called in any state of a run, [getMessageFn] keeps the log it found
    and adds the start and the settling of one fetch to it.  Whether the
    call returns or throws, its fetch has settled when it ends: it leaves no
    more fetches in flight than it found. *)
Theorem getMessageFn_from_any_state (w : World) (args : list json) (st : AState) :
  log (fst (IndexRoute.getMessageFn args w st)) =
    log st ++ [FetchStart (next_id st) api_request; FetchSettle (next_id st)] /\
  (in_flight (log (fst (IndexRoute.getMessageFn args w st))) <= in_flight (log st))%nat.
Proof.
  rewrite getMessageFn_from_state. cbn [fst log]. split; [reflexivity |].
  unfold in_flight. rewrite pending_app. cbn [pending List.filter].
  rewrite Nat.eqb_refl. cbn [negb]. apply filter_length_le.
Qed.


Lemma page_load_outcome (w : World) :
  snd (run IndexRoute.page_load w) =
  rbind (rbind (network w 0 api_request) body_json) IndexRoute.App.
Proof.
  rewrite page_load_run, loader_run, getMessageFn_run. reflexivity.
Qed.



(** X8. When the answer is JSON that has no [message] to give, an object
    without that member or a value that is neither an object nor [null],
    the load does not fail: it renders the [div] with no child. *)
Theorem page_load_without_message (w : World) (response : Response) (data : json) :
  network w 0 api_request = inr response ->
  body_json response = inr data ->
  data <> JNull ->
  (forall members, data = JObj members -> obj_get (js "message") members = None) ->
  snd (run IndexRoute.page_load w) = inr (message_div None).
Proof.
  intros Hnet Hbody Hnn Hobj.
  rewrite page_load_outcome, Hnet. cbn [rbind]. rewrite Hbody. cbn [rbind].
  unfold IndexRoute.App.
  destruct data; cbn [destructure_message rbind]; try reflexivity.
  - contradiction Hnn. reflexivity.
  - rewrite (Hobj members eq_refl). reflexivity.
Qed.

Lemma page_load_without_message_witness :
  snd (run IndexRoute.page_load world_error_status) = inr (message_div None).
Proof.
  apply (page_load_without_message world_error_status
           {| status := 500; statusText := js "Internal Server Error";
              resp_headers := [(js "content-type", js "application/json")];
              resp_body := inr (js "{ }") |}
           (JObj [])).
  - reflexivity.
  - reflexivity.
  - discriminate.
  - intros members H. injection H as <-. reflexivity.
Defined.

(** X9. Nothing is kept from one load to the next.  A load that follows a
    load that succeeded sends the same request again; a load that failed
    ends the run with its error; and at no point of the two loads is more
    than one fetch in flight. *)
Theorem two_loads_refetch (w : World) :
  (forall data,
      snd (run IndexRoute.loader w) = inr data ->
      started (log (fst (run two_loads w))) = [api_request; api_request] /\
      snd (run two_loads w) = rbind (network w 1 api_request) body_json) /\
  (forall e,
      snd (run IndexRoute.loader w) = inl e ->
      run two_loads w = run IndexRoute.loader w) /\
  (forall n, (in_flight (List.firstn n (log (fst (run two_loads w)))) <= 1)%nat).
Proof.
  unfold two_loads, run, bind.
  rewrite !loader_from_state, getMessageFn_from_state.
  cbn [log next_id initial app].
  destruct (rbind (network w 0 api_request) body_json) as [e | data].
  - split; [intros data H; discriminate |]. split; [reflexivity |].
    intros [| [| [| n]]]; cbn; lia.
  - rewrite loader_from_state, getMessageFn_from_state. cbn [log next_id app fst snd].
    split; [intros _ _; split; reflexivity |]. split; [intros e H; discriminate |].
    intros [| [| [| [| [| n]]]]]; cbn; lia.
Qed.

(** * vitest.config.ts *)

(** X10. The mode of the test run is [MODE] whenever that variable is set,
    be it to the empty string; else [NODE_ENV] whenever that is set; and
    [test] only when neither is set. *)
Theorem mode_spec (env : jsstring -> option jsstring) (m : jsstring) :
  VitestConfig.mode env = m <->
  env (js "MODE") = Some m \/
  (env (js "MODE") = None /\ env (js "NODE_ENV") = Some m) \/
  (env (js "MODE") = None /\ env (js "NODE_ENV") = None /\ m = js "test").
Proof.
  unfold VitestConfig.mode, VitestConfig.coalesce, VitestConfig.coalesce_default.
  destruct (env (js "MODE")) as [a |]; [| destruct (env (js "NODE_ENV")) as [b |]].
  - split.
    + intros <-. left. reflexivity.
    + intros [H | [[H _] | [H _]]]; [injection H as <-; reflexivity | discriminate ..].
  - split.
    + intros <-. right. left. split; reflexivity.
    + intros [H | [[_ H] | [_ [H _]]]];
        [discriminate | injection H as <-; reflexivity | discriminate].
  - split.
    + intros <-. right. right. repeat split.
    + intros [H | [[_ H] | [_ [_ ->]]]]; [discriminate .. | reflexivity].
Qed.
